(** * lifeline: the point-declutter pipeline of [main.go]

    The pipeline of [main] (lines 108-217) takes the points read from the
    CSV file, already sorted by year, and moves their [Year] coordinate in
    three passes over slices that are updated in place:

    - lines 114-150: points of the same year are fanned out in steps of 0.2;
    - lines 153-206: the gaps between neighbours are stretched by the local
      density and renormalised into the range of the first and last point;
    - lines 212-217: a forward pass restores a strictly increasing order.

    Modelling choices.
    - [float64] is modelled by exact rational arithmetic ([Q]); the Go
      comparisons [==], [<=], [>] are [Qeq_bool], [Qle_bool], [Qlt_bool].
      Rounding, infinities and NaN are outside the model.
    - Slices are lists read with [l !! i] and written at an index that is
      checked: an index out of range makes Go panic, and the model return
      [None].
    - A division whose divisor is zero also returns [None], so that a
      theorem stating that a pass returns [Some] result says at once that
      no index was out of range and that nothing was divided by zero.
    - The [fmt.Printf] traces are not modelled; they read the slices and
      write none of them.

    Around the pipeline, [readCSV] (lines 32-78) is modelled from the rows
    that the CSV reader returns, [main] from its positional arguments to the
    adjusted points (lines 86-237), and the window and the label offsets of
    the chart (lines 243-304 and 346-359).  The functions of the Go
    libraries they call ([os], [encoding/csv], [strings], [strconv], [fmt],
    [sort]) are the fields of a record [Library]; the plotting library is
    not modelled. *)

From Stdlib Require Import QArith Qabs Qminmax Qround Lqa Lia String.
From stdpp Require Import base option list.

Local Open Scope Q_scope.

(** * Part I: definitions *)

(** ** Data model *)

(** [type Point struct { Year, Value float64; Label string }] *)
Record Point : Type := mkPoint { Year : Q; Value : Q; Label : string }.

(** [p.Year = y] on a copy of [p]. *)
Definition withYear (p : Point) (y : Q) : Point :=
  {| Year := y; Value := Value p; Label := Label p |}.

(** [float64(n)] for a non-negative [int]. *)
Definition ofInt (n : nat) : Q := inject_Z (Z.of_nat n).

(** [x > y] is [y < x]. *)
Definition Qlt_bool (x y : Q) : bool := negb (Qle_bool y x).

(** ** Slices and loops *)

(** [l[i] = x]; Go panics when [i] is out of range. *)
Definition store {A : Type} (i : nat) (x : A) (l : list A) : option (list A) :=
  if decide (i < length l)%nat then Some (<[i := x]> l) else None.

(** [l[i].Year = y] *)
Definition setYear (i : nat) (y : Q) (l : list Point) : option (list Point) :=
  p ← l !! i; store i (withYear p y) l.

(** [a / b], undefined for a zero divisor. *)
Definition fdiv (a b : Q) : option Q :=
  if Qeq_bool b 0 then None else Some (a / b).

(** [for i := start; i < start + n; i++ { body }] over a state [St]. *)
Fixpoint forLoop {St : Type} (body : nat → St → option St)
    (i n : nat) (s : St) : option St :=
  match n with
  | O => Some s
  | S n' => s' ← body i s; forLoop body (S i) n' s'
  end.

(** ** First pass: same-year overlaps (lines 114-150) *)

Definition spacing : Q := 2 # 10.

(** Lines 119-123: how many points of [points] have the year [currentYear]. *)
Definition sameYearCount (points : list Point) (currentYear : Q) : nat :=
  fold_left
    (λ count p, if Qeq_bool (Year p) currentYear then S count else count)
    points 0%nat.

(** Lines 129-136: the scan from [j] on, left by [break] at [j == i]. *)
Fixpoint eventIndexFrom (ps : list Point) (currentYear : Q)
    (i j eventIndex : nat) : nat :=
  match ps with
  | [] => eventIndex
  | p :: ps' =>
      if Qeq_bool (Year p) currentYear then
        if (j =? i)%nat then eventIndex
        else eventIndexFrom ps' currentYear i (S j) (S eventIndex)
      else eventIndexFrom ps' currentYear i (S j) eventIndex
  end.

Definition eventIndex (points : list Point) (currentYear : Q) (i : nat) : nat :=
  eventIndexFrom points currentYear i 0 0.

(** Line 141. *)
Definition newYear (currentYear : Q) (sameYearCount eventIndex : nat) : Q :=
  let totalOffset := ofInt (sameYearCount - 1) * spacing / 2 in
  currentYear - totalOffset + ofInt eventIndex * spacing.

(** The body of the loop of line 114. *)
Definition sameYearStep (points : list Point) (i : nat)
    (adjustedPoints : list Point) : option (list Point) :=
  p ← adjustedPoints !! i;
  let currentYear := Year p in
  let count := sameYearCount points currentYear in
  if (1 <? count)%nat then
    setYear i (newYear currentYear count (eventIndex points currentYear i))
      adjustedPoints
  else Some adjustedPoints.

(** Lines 108-150: [adjustedPoints] starts as a copy of [points]. *)
Definition sameYearPass (points : list Point) : option (list Point) :=
  forLoop (sameYearStep points) 0 (length points) points.

(** ** Second pass: density scaling (lines 153-206) *)

Definition densityWindow : Q := 3.

(** Lines 161-166. *)
Definition windowCount (adjustedPoints : list Point) (year : Q) : nat :=
  fold_left
    (λ count q,
       if Qle_bool (Qabs (Year q - year)) densityWindow then S count else count)
    adjustedPoints 0%nat.

(** The body of the loop of line 160. *)
Definition densityStep (adjustedPoints : list Point) (i : nat)
    (densities : list Q) : option (list Q) :=
  p ← adjustedPoints !! i;
  store i (ofInt (windowCount adjustedPoints (Year p))) densities.

(** Lines 158-168. *)
Definition densityPass (adjustedPoints : list Point) : option (list Q) :=
  forLoop (densityStep adjustedPoints) 0 (length adjustedPoints)
    (replicate (length adjustedPoints) 0).

(** Lines 185-186. *)
Definition scaleFactor (di dprev : Q) : Q :=
  let avgDensity := (di + dprev) / 2 in
  1 + (avgDensity - 1) * (15 # 10).

(** The body of the loop of line 180, on the state
    [(scaledDistances, totalScaledDistance)]. *)
Definition scaleStep (adjustedPoints : list Point) (densities : list Q)
    (i : nat) (st : list Q * Q) : option (list Q * Q) :=
  cur ← adjustedPoints !! i;
  prev ← adjustedPoints !! (i - 1)%nat;
  di ← densities !! i;
  dprev ← densities !! (i - 1)%nat;
  let actualDistance := Year cur - Year prev in
  scaledDistances ← store i (actualDistance * scaleFactor di dprev) (fst st);
  d ← scaledDistances !! i;
  Some (scaledDistances, snd st + d).

(** Lines 177-190. *)
Definition scalePass (adjustedPoints : list Point) (densities : list Q)
    : option (list Q * Q) :=
  forLoop (scaleStep adjustedPoints densities) 1 (length adjustedPoints - 1)
    (replicate (length adjustedPoints) 0, 0).

(** The body of the loop of line 196, on the state
    [(densityScaledPoints, cumulativeScaledDistance)]. *)
Definition positionStep (adjustedPoints : list Point)
    (scaledDistances : list Q) (totalScaledDistance minYear totalRange : Q)
    (i : nat) (st : list Point * Q) : option (list Point * Q) :=
  d ← scaledDistances !! i;
  let cumulativeScaledDistance := snd st + d in
  if Qlt_bool 0 totalScaledDistance then
    normalizedPosition ← fdiv cumulativeScaledDistance totalScaledDistance;
    dsp ← setYear i (minYear + normalizedPosition * totalRange) (fst st);
    Some (dsp, cumulativeScaledDistance)
  else
    p ← adjustedPoints !! i;
    dsp ← setYear i (Year p) (fst st);
    Some (dsp, cumulativeScaledDistance).

(** Lines 172-206, the body of [if len(densityScaledPoints) > 0] up to the
    order pass; [densityScaledPoints] starts as a copy of
    [adjustedPoints]. *)
Definition densityScale (adjustedPoints : list Point) (densities : list Q)
    : option (list Point) :=
  first ← adjustedPoints !! 0%nat;
  last ← adjustedPoints !! (length adjustedPoints - 1)%nat;
  let minYear := Year first in
  let maxYear := Year last in
  let totalRange := maxYear - minYear in
  scaled ← scalePass adjustedPoints densities;
  dsp0 ← setYear 0 minYear adjustedPoints;
  st ← forLoop
         (positionStep adjustedPoints (fst scaled) (snd scaled) minYear totalRange)
         1 (length adjustedPoints - 1) (dsp0, 0);
  Some (fst st).

(** The second pass as a whole: lines 153-206. *)
Definition densityRescale (adjustedPoints : list Point) : option (list Point) :=
  densities ← densityPass adjustedPoints;
  if (0 <? length adjustedPoints)%nat then densityScale adjustedPoints densities
  else Some adjustedPoints.

(** ** Third pass: chronological order (lines 212-217) *)

Definition orderStep (i : nat) (densityScaledPoints : list Point)
    : option (list Point) :=
  cur ← densityScaledPoints !! i;
  prev ← densityScaledPoints !! (i - 1)%nat;
  if Qle_bool (Year cur) (Year prev) then
    setYear i (Year prev + (1 # 10)) densityScaledPoints
  else Some densityScaledPoints.

Definition orderPass (densityScaledPoints : list Point) : option (list Point) :=
  forLoop orderStep 1 (length densityScaledPoints - 1) densityScaledPoints.

(** ** The pipeline: lines 108-237 *)

(** The three passes in sequence.  The second and the third pass are the
    body of [if len(densityScaledPoints) > 0] (line 171); the test is made
    once in [densityRescale] and once here, on slices of the same length. *)
Definition declutter (points : list Point) : option (list Point) :=
  adjustedPoints ← sameYearPass points;
  densityScaledPoints ← densityRescale adjustedPoints;
  if (0 <? length densityScaledPoints)%nat then orderPass densityScaledPoints
  else Some densityScaledPoints.

(** The years of a slice, and the year at an index (0 out of range). *)
Definition years (l : list Point) : list Q := map Year l.

Definition yearAt (l : list Point) (i : nat) : Q :=
  match l !! i with Some p => Year p | None => 0 end.

(** ** Closed forms of the passes

    What each pass leaves at index [i], as a function of the slice the pass
    started from.  The lemmas of Part II show that the loops compute
    them. *)

(** First pass: the point left at index [i], where [points !! i = Some p]. *)
Definition spacedPoint (points : list Point) (i : nat) (p : Point) : Point :=
  let count := sameYearCount points (Year p) in
  if (1 <? count)%nat then
    withYear p (newYear (Year p) count (eventIndex points (Year p) i))
  else p.

(** [densities[i]] *)
Definition density (adjustedPoints : list Point) (i : nat) : Q :=
  ofInt (windowCount adjustedPoints (yearAt adjustedPoints i)).

(** [scaledDistances[i]] for [1 <= i]. *)
Definition scaledDistance (adjustedPoints : list Point) (i : nat) : Q :=
  (yearAt adjustedPoints i - yearAt adjustedPoints (i - 1))
  * scaleFactor (density adjustedPoints i) (density adjustedPoints (i - 1)).

(** [g 1 + ... + g k], added in the order of the loops of lines 180 and
    196, starting from [0.0]. *)
Fixpoint runningSum (g : nat → Q) (k : nat) : Q :=
  match k with
  | O => 0
  | S k' => runningSum g k' + g (S k')
  end.

(** [totalScaledDistance] after the loop of line 180. *)
Definition totalScaledDistance (adjustedPoints : list Point) : Q :=
  runningSum (scaledDistance adjustedPoints) (length adjustedPoints - 1).

(** Second pass: the year left at index [i]. *)
Definition scaledYear (adjustedPoints : list Point) (i : nat) : Q :=
  match i with
  | O => yearAt adjustedPoints 0
  | S _ =>
      if Qlt_bool 0 (totalScaledDistance adjustedPoints) then
        yearAt adjustedPoints 0
        + runningSum (scaledDistance adjustedPoints) i
          / totalScaledDistance adjustedPoints
          * (yearAt adjustedPoints (length adjustedPoints - 1)
             - yearAt adjustedPoints 0)
      else yearAt adjustedPoints i
  end.

(** Third pass: the year left at index [i]. *)
Fixpoint orderedYear (l : list Point) (i : nat) : Q :=
  match i with
  | O => yearAt l 0
  | S i' =>
      if Qle_bool (yearAt l i) (orderedYear l i') then
        orderedYear l i' + (1 # 10)
      else yearAt l i
  end.

Definition orderedPoint (l : list Point) (i : nat) (p : Point) : Point :=
  match i with
  | O => p
  | S i' =>
      if Qle_bool (Year p) (orderedYear l i') then
        withYear p (orderedYear l i' + (1 # 10))
      else p
  end.

(** The point the second pass leaves at index [i]. *)
Definition scaledPoint (adjustedPoints : list Point) (i : nat) (p : Point)
    : Point :=
  withYear p (scaledYear adjustedPoints i).

(** ** The words of the specification *)

Definition countWhere {A : Type} (f : A → bool) (l : list A) : nat :=
  length (List.filter f l).

(** "the number of points (anywhere in the sequence) whose time equals" [t] *)
Definition sameTimeCount (points : list Point) (t : Q) : nat :=
  countWhere (λ q, Qeq_bool (Year q) t) points.

(** "[i]'s zero-based rank among those same-time points in sequence order" *)
Definition sameTimeRank (points : list Point) (i : nat) (t : Q) : nat :=
  countWhere (λ q, Qeq_bool (Year q) t) (take i points).


Definition sameFrame (p q : Point) : Prop :=
  Value q = Value p ∧ Label q = Label p.

(** The years do not decrease along the slice. *)
Fixpoint ascending (l : list Point) : bool :=
  match l with
  | [] => true
  | p :: l' =>
      match l' with
      | [] => true
      | q :: _ => Qle_bool (Year p) (Year q) && ascending l'
      end
  end.

(** "the minimum of the times" and "the maximum of the times" of a
    non-empty slice. *)
Fixpoint minYearOf (l : list Point) : Q :=
  match l with
  | [] => 0
  | p :: l' => match l' with [] => Year p | _ :: _ => Qmin (Year p) (minYearOf l') end
  end.



(** [g 0 + ... + g (n - 1)] *)
Fixpoint sumTo (g : nat → Q) (n : nat) : Q :=
  match n with
  | O => 0
  | S n' => sumTo g n' + g n'
  end.




(** ** Inputs of the examples *)

Definition pt (y v : Q) (s : string) : Point := mkPoint y v s.

Definition scenario : list Point :=
  [pt 1990 10 "A"; pt 1990 20 "B"; pt 1995 5 "C"].

(** The scenario after the first pass. *)
Definition scenarioSpaced : list Point :=
  [pt (19899 # 10) 10 "A"; pt (19901 # 10) 20 "B"; pt 1995 5 "C"].

(** Two points that coincide after the first pass. *)
Definition coincident : list Point := [pt 5 1 "a"; pt 5 2 "b"].


(** One point of 1990 followed by twelve points of 1991. *)
Definition wholeYears : list Point :=
  pt 1990 1 "first" :: replicate 12 (pt 1991 2 "later").




(** ** Further words for the properties of the passes *)

(** Each year is above the one before. *)
Definition strictlyIncreasing (l : list Point) : Prop :=
  ∀ i, (0 < i < length l)%nat → yearAt l (i - 1) < yearAt l i.

(** ** Reading the points: [readCSV] (lines 32-78) *)

(** The library functions that [readCSV] and [main] call, by what they
    return:
    - [ReadAll path]: [os.Open] followed by [csv.Reader.ReadAll] with
      [FieldsPerRecord = -1], the rows of the file or the error of either
      call (its message);
    - [TrimSpace]: [strings.TrimSpace];
    - [ParseFloat s]: [strconv.ParseFloat(s, 64)], the number or the error;
      a text that Go parses to an infinity or a NaN has no counterpart in
      [Q];
    - [DefaultLabel year val]: [fmt.Sprintf("%.0f, %.2f", year, val)];
    - [SortSlice less l]: the slice after [sort.Slice(l, less)]. *)
Record Library : Type := {
  ReadAll : string → string + list (list string);
  TrimSpace : string → string;
  ParseFloat : string → string + Q;
  DefaultLabel : Q → Q → string;
  SortSlice : (Point → Point → bool) → list Point → list Point
}.

(** The errors [readCSV] returns; rows are numbered from 1. *)
Inductive ReadError : Type :=
| IOError (err : string)
| EmptyCSV
| ColumnCount (row got : nat)
| InvalidYear (row : nat) (yearStr err : string)
| InvalidValue (row : nat) (valStr err : string).

(** The body of the loop of line 50 on the row of index [i]; a row matches
    [c0 :: c1 :: rest] when [len(row) >= 2], and [rest] is not empty when
    [len(row) >= 3]. *)
Definition readRow (lib : Library) (i : nat) (row : list string)
    : ReadError + Point :=
  match row with
  | c0 :: c1 :: rest =>
      let yearStr := TrimSpace lib c0 in
      let valStr := TrimSpace lib c1 in
      match ParseFloat lib yearStr with
      | inl err => inl (InvalidYear (i + 1) yearStr err)
      | inr year =>
          match ParseFloat lib valStr with
          | inl err => inl (InvalidValue (i + 1) valStr err)
          | inr val =>
              let lbl :=
                match rest with c2 :: _ => TrimSpace lib c2 | [] => ""%string end in
              let lbl :=
                if String.eqb lbl "" then DefaultLabel lib year val else lbl in
              inr {| Year := year; Value := val; Label := lbl |}
          end
      end
  | _ => inl (ColumnCount (i + 1) (length row))
  end.

(** Lines 49-77: the loop over the rows from index [i] on, appending to
    [pts]. *)
Fixpoint readRows (lib : Library) (rows : list (list string)) (i : nat)
    (pts : list Point) : ReadError + list Point :=
  match rows with
  | [] => inr pts
  | row :: rows' =>
      match readRow lib i row with
      | inl e => inl e
      | inr p => readRows lib rows' (S i) (pts ++ [p])
      end
  end.

(** [readCSV] *)
Definition readCSV (lib : Library) (path : string) : ReadError + list Point :=
  match ReadAll lib path with
  | inl err => inl (IOError err)
  | inr rows =>
      if (length rows =? 0)%nat then inl EmptyCSV else readRows lib rows 0 []
  end.

(** ** From the arguments to the adjusted points: [main], lines 86-237 *)

(** The ways [main] stops before the chart is built: the three
    [log.Fatal] calls of lines 89, 97 and 101, and a panic in the passes. *)
Inductive Fatal : Type :=
| Usage
| ReadFailed (e : ReadError)
| NoDataPoints
| RuntimePanic.

(** Line 105: [points[i].Year < points[j].Year]. *)
Definition byYear (a b : Point) : bool := Qlt_bool (Year a) (Year b).

(** Lines 86-237 on the positional arguments [args]. *)
Definition adjustedTimeline (lib : Library) (args : list string)
    : Fatal + list Point :=
  match args with
  | input :: _ :: _ =>
      match readCSV lib input with
      | inl e => inl (ReadFailed e)
      | inr points =>
          if (length points =? 0)%nat then inl NoDataPoints
          else
            match declutter (SortSlice lib byYear points) with
            | Some adjustedPoints => inr adjustedPoints
            | None => inl RuntimePanic
            end
      end
  | _ => inl Usage
  end.

(** ** The window of the chart: [main], lines 243-304 *)

(** [math.MaxFloat64] *)
Definition maxFloat64 : Q := inject_Z (2 ^ 1024 - 2 ^ 971).

(** [math.Floor] and [math.Ceil] *)
Definition floorQ (x : Q) : Q := inject_Z (Qfloor x).
Definition ceilQ (x : Q) : Q := inject_Z (Qceiling x).

(** The variables [minYear], [maxYear], [minY], [maxY] of lines 243-246. *)
Record Extent : Type := {
  extMinYear : Q; extMaxYear : Q; extMinY : Q; extMaxY : Q
}.

(** Lines 255-266. *)
Definition extentStep (e : Extent) (p : Point) : Extent :=
  {| extMinYear := if Qlt_bool (Year p) (extMinYear e) then Year p
                   else extMinYear e;
     extMaxYear := if Qlt_bool (extMaxYear e) (Year p) then Year p
                   else extMaxYear e;
     extMinY := if Qlt_bool (Value p) (extMinY e) then Value p else extMinY e;
     extMaxY := if Qlt_bool (extMaxY e) (Value p) then Value p else extMaxY e |}.

(** Lines 243-267. *)
Definition extent (adjustedPoints : list Point) : Extent :=
  fold_left extentStep adjustedPoints
    {| extMinYear := maxFloat64; extMaxYear := - maxFloat64;
       extMinY := 0; extMaxY := 0 |}.



(** [p.X.Min], [p.X.Max], [p.Y.Min], [p.Y.Max] *)
Record Window : Type := { XMin : Q; XMax : Q; YMin : Q; YMax : Q }.

(** Lines 270-304. *)
Definition window (adjustedPoints : list Point) : Window :=
  let e := extent adjustedPoints in
  let yPad := if Qlt_bool (extMaxY e - extMinY e) 4 then 1 else 6 # 10 in
  let minY := if Qlt_bool (-10) (extMinY e) then -10 else extMinY e in
  let maxY := if Qlt_bool (extMaxY e) 10 then 10 else extMaxY e in
  {| XMin := floorQ (extMinYear e); XMax := ceilQ (extMaxYear e);
     YMin := floorQ (minY - yPad); YMax := ceilQ (maxY + yPad) |}.

(** Lines 346-359: the offset of the label of index [i], in points; a
    label keeps the zero offset it is created with if no case matches. *)
Definition labelOffset (i : nat) : Q * Q :=
  match (i mod 4)%nat with
  | 0%nat => (8, 8)
  | 1%nat => (8, -8)
  | 2%nat => (-8, 8)
  | 3%nat => (-8, -8)
  | _ => (0, 0)
  end.

(** ** Words and inputs for the properties of [readCSV] and [main] *)

(** The number of the row an error names. *)
Definition errorRow (e : ReadError) : option nat :=
  match e with
  | ColumnCount row _ | InvalidYear row _ _ | InvalidValue row _ _ => Some row
  | IOError _ | EmptyCSV => None
  end.

(** What the passes never write. *)
Definition valueAndLabel (p : Point) : Q * string := (Value p, Label p).

(** A library for the examples: two files of two rows, texts that need no
    trimming, four numerals, and a sort that finds its input sorted. *)
Definition exampleLibrary : Library :=
  {| ReadAll := λ path,
       if String.eqb path "ok.csv"
       then inr [["1990"; "10"; "A"]; ["1995"; "5"]]%string
       else if String.eqb path "short.csv"
       then inr [["1990"; "10"]; ["1995"]]%string
       else inl "no such file"%string;
     TrimSpace := λ s, s;
     ParseFloat := λ s,
       if String.eqb s "1990" then inr 1990
       else if String.eqb s "1995" then inr 1995
       else if String.eqb s "10" then inr 10
       else if String.eqb s "5" then inr 5
       else inl "invalid syntax"%string;
     DefaultLabel := λ _ _, "1995, 5.00"%string;
     SortSlice := λ _ l, l |}.

(** * Part II: the loops compute the closed forms *)

Lemma withYear_Year (p : Point) : withYear p (Year p) = p.
Proof. by destruct p. Qed.

Lemma store_Some {A : Type} (i : nat) (x : A) (l : list A) :
  (i < length l)%nat → store i x l = Some (<[i := x]> l).
Proof. intros Hi. unfold store. by rewrite decide_True. Qed.

Lemma setYear_Some (i : nat) (y : Q) (l : list Point) (p : Point) :
  l !! i = Some p → setYear i y l = Some (<[i := withYear p y]> l).
Proof.
  intros Hp. unfold setYear. rewrite Hp. simpl.
  apply store_Some. by eapply lookup_lt_Some.
Qed.

Lemma yearAt_Some (l : list Point) (i : nat) (p : Point) :
  l !! i = Some p → yearAt l i = Year p.
Proof. intros H. unfold yearAt. by rewrite H. Qed.

(** The loop rule: an invariant that holds on entry and is kept by every
    iteration that runs holds on exit, and the loop does not abort. *)
Lemma forLoop_inv {St : Type} (I : nat → St → Prop)
    (body : nat → St → option St) (n lo : nat) (s : St) :
  I lo s →
  (∀ i t, (lo ≤ i < lo + n)%nat → I i t →
     ∃ t', body i t = Some t' ∧ I (S i) t') →
  ∃ s', forLoop body lo n s = Some s' ∧ I (lo + n)%nat s'.
Proof.
  revert lo s. induction n as [|n IH]; intros lo s Hs Hbody.
  - exists s. rewrite Nat.add_0_r. by split.
  - destruct (Hbody lo s) as (t & Ht & Hinv); [lia | done |].
    destruct (IH (S lo) t) as (s' & Hs' & Hend); [done | |].
    + intros i u Hi Hu. apply Hbody; [lia | done].
    + exists s'. split.
      * simpl. rewrite Ht. exact Hs'.
      * by replace (lo + S n)%nat with (S lo + n)%nat by lia.
Qed.

(** *** First pass *)

Lemma sameYearPass_spec (points : list Point) :
  ∃ adjustedPoints,
    sameYearPass points = Some adjustedPoints
    ∧ length adjustedPoints = length points
    ∧ ∀ i p, points !! i = Some p →
        adjustedPoints !! i = Some (spacedPoint points i p).
Proof.
  pose (I := λ (k : nat) (adj : list Point),
    length adj = length points
    ∧ ∀ i p, points !! i = Some p →
        adj !! i = Some (if decide (i < k)%nat then spacedPoint points i p else p)).
  destruct (forLoop_inv I (sameYearStep points) (length points) 0 points)
    as (adj & Hrun & Hlen & Hadj).
  - split; [done |]. intros i p Hp. by rewrite decide_False by lia.
  - intros k adj Hk [Hlen Hadj].
    destruct (lookup_lt_is_Some_2 points k) as [p Hp]; [lia |].
    pose proof (Hadj k p Hp) as Hk'. rewrite decide_False in Hk' by lia.
    unfold sameYearStep. rewrite Hk'. simpl.
    destruct (1 <? sameYearCount points (Year p))%nat eqn:Hc.
    + rewrite (setYear_Some _ _ _ p Hk'). eexists. split; [done |].
      split; [by rewrite length_insert |].
      intros i q Hq. destruct (decide (i = k)) as [-> | Hne].
      * rewrite list_lookup_insert_eq by lia.
        rewrite decide_True by lia.
        assert (q = p) as -> by congruence.
        unfold spacedPoint. by rewrite Hc.
      * rewrite list_lookup_insert_ne by done. rewrite (Hadj i q Hq).
        by destruct (decide (i < k)%nat), (decide (i < S k)%nat); try lia.
    + eexists. split; [done |]. split; [done |].
      intros i q Hq. rewrite (Hadj i q Hq).
      destruct (decide (i = k)) as [-> | Hne].
      * rewrite decide_False by lia. rewrite decide_True by lia.
        assert (q = p) as -> by congruence.
        unfold spacedPoint. by rewrite Hc.
      * by destruct (decide (i < k)%nat), (decide (i < S k)%nat); try lia.
  - exists adj. split; [done |]. split; [done |].
    intros i p Hp. rewrite (Hadj i p Hp).
    rewrite decide_True; [done |]. simpl. by eapply lookup_lt_Some.
Qed.

(** *** Second pass *)

Lemma densityPass_spec (adjustedPoints : list Point) :
  ∃ densities,
    densityPass adjustedPoints = Some densities
    ∧ length densities = length adjustedPoints
    ∧ ∀ i, (i < length adjustedPoints)%nat →
        densities !! i = Some (density adjustedPoints i).
Proof.
  pose (I := λ (k : nat) (ds : list Q),
    length ds = length adjustedPoints
    ∧ ∀ i, (i < k)%nat → ds !! i = Some (density adjustedPoints i)).
  destruct (forLoop_inv I (densityStep adjustedPoints) (length adjustedPoints) 0
              (replicate (length adjustedPoints) 0))
    as (ds & Hrun & Hlen & Hds).
  - split; [apply length_replicate | intros; lia].
  - intros k ds Hk [Hlen Hds].
    destruct (lookup_lt_is_Some_2 adjustedPoints k) as [p Hp]; [lia |].
    unfold densityStep. rewrite Hp. simpl.
    rewrite store_Some by lia. eexists. split; [done |].
    split; [by rewrite length_insert |].
    intros i Hi. destruct (decide (i = k)) as [-> | Hne].
    + rewrite list_lookup_insert_eq by lia.
      unfold density. by rewrite (yearAt_Some _ _ _ Hp).
    + rewrite list_lookup_insert_ne by done. apply Hds. lia.
  - exists ds. split; [done |]. split; [done |]. intros i Hi. by apply Hds.
Qed.

Lemma scalePass_spec (adjustedPoints : list Point) (densities : list Q) :
  length densities = length adjustedPoints →
  (∀ i, (i < length adjustedPoints)%nat →
     densities !! i = Some (density adjustedPoints i)) →
  ∃ scaledDistances,
    scalePass adjustedPoints densities
      = Some (scaledDistances, totalScaledDistance adjustedPoints)
    ∧ ∀ i, (1 ≤ i < length adjustedPoints)%nat →
        scaledDistances !! i = Some (scaledDistance adjustedPoints i).
Proof.
  intros Hdl Hd.
  pose (I := λ (k : nat) (st : list Q * Q),
    length (fst st) = length adjustedPoints
    ∧ snd st = runningSum (scaledDistance adjustedPoints) (k - 1)
    ∧ ∀ i, (1 ≤ i < k)%nat →
        fst st !! i = Some (scaledDistance adjustedPoints i)).
  destruct (forLoop_inv I (scaleStep adjustedPoints densities)
              (length adjustedPoints - 1) 1
              (replicate (length adjustedPoints) 0, 0))
    as ([sd tot] & Hrun & Hlen & Htot & Hsd).
  - split; [apply length_replicate |]. split; [done | intros; lia].
  - intros k [sd tot] Hk (Hlen & Htot & Hsd). simpl in *.
    destruct (lookup_lt_is_Some_2 adjustedPoints k) as [cur Hcur]; [lia |].
    destruct (lookup_lt_is_Some_2 adjustedPoints (k - 1)) as [prev Hprev]; [lia |].
    unfold scaleStep. rewrite Hcur, Hprev. simpl.
    rewrite (Hd k), (Hd (k - 1)%nat) by lia. simpl.
    rewrite store_Some by lia. simpl.
    rewrite list_lookup_insert_eq by lia. simpl.
    assert (Year cur - Year prev = yearAt adjustedPoints k
                                   - yearAt adjustedPoints (k - 1)) as Hgap.
    { by rewrite (yearAt_Some _ _ _ Hcur), (yearAt_Some _ _ _ Hprev). }
    eexists. split; [done |]. unfold I. cbn [fst snd].
    split; [by rewrite length_insert |]. split.
    + rewrite Htot, Hgap. replace (S k - 1)%nat with (S (k - 1)) by lia.
      simpl. by replace (S (k - 1)) with k by lia.
    + intros i Hi. destruct (decide (i = k)) as [-> | Hne].
      * rewrite list_lookup_insert_eq by lia. by rewrite Hgap.
      * rewrite list_lookup_insert_ne by done. apply Hsd. lia.
  - simpl in *. exists sd. split.
    + unfold scalePass. rewrite Hrun. unfold totalScaledDistance.
      rewrite Htot. do 3 f_equal. lia.
    + intros i Hi. apply Hsd. lia.
Qed.

Lemma Qlt_bool_iff (x y : Q) : Qlt_bool x y = true ↔ x < y.
Proof.
  unfold Qlt_bool. rewrite negb_true_iff, <- not_true_iff_false, Qle_bool_iff.
  split; [apply Qnot_le_lt | apply Qlt_not_le].
Qed.

Lemma fdiv_Some (a b : Q) : 0 < b → fdiv a b = Some (a / b).
Proof.
  intros Hb. unfold fdiv. destruct (Qeq_bool b 0) eqn:Hz; [| done].
  apply Qeq_bool_iff in Hz. rewrite Hz in Hb. by apply Qlt_irrefl in Hb.
Qed.

Lemma densityScale_spec (adjustedPoints : list Point) (densities : list Q) :
  (0 < length adjustedPoints)%nat →
  length densities = length adjustedPoints →
  (∀ i, (i < length adjustedPoints)%nat →
     densities !! i = Some (density adjustedPoints i)) →
  ∃ dsp,
    densityScale adjustedPoints densities = Some dsp
    ∧ length dsp = length adjustedPoints
    ∧ ∀ i p, adjustedPoints !! i = Some p →
        dsp !! i = Some (scaledPoint adjustedPoints i p).
Proof.
  intros Hne Hdl Hd.
  destruct (scalePass_spec adjustedPoints densities Hdl Hd) as (sd & Hsc & Hsd).
  destruct (lookup_lt_is_Some_2 adjustedPoints 0) as [first Hfirst]; [lia |].
  destruct (lookup_lt_is_Some_2 adjustedPoints (length adjustedPoints - 1))
    as [last Hlast]; [lia |].
  set (total := totalScaledDistance adjustedPoints) in *.
  set (minYear := Year first).
  set (totalRange := Year last - Year first).
  pose (I := λ (k : nat) (st : list Point * Q),
    length (fst st) = length adjustedPoints
    ∧ snd st = runningSum (scaledDistance adjustedPoints) (k - 1)
    ∧ ∀ i p, adjustedPoints !! i = Some p →
        fst st !! i
        = Some (if decide (i < k)%nat then scaledPoint adjustedPoints i p else p)).
  destruct (forLoop_inv I
              (positionStep adjustedPoints sd total minYear totalRange)
              (length adjustedPoints - 1) 1
              (<[0%nat := withYear first minYear]> adjustedPoints, 0))
    as ([dsp cum] & Hrun & Hlen & _ & Hdsp).
  - unfold I. cbn [fst snd]. split; [by rewrite length_insert |].
    split; [done |].
    intros i p Hp. destruct (decide (i = 0%nat)) as [-> | Hi].
    + rewrite list_lookup_insert_eq by lia. rewrite decide_True by lia.
      assert (p = first) as -> by congruence.
      unfold scaledPoint, scaledYear, minYear.
      by rewrite (yearAt_Some _ _ _ Hfirst).
    + rewrite list_lookup_insert_ne by done. by rewrite decide_False by lia.
  - intros k [dsp cum] Hk (Hlen & Hcum & Hdsp). simpl in *.
    destruct (lookup_lt_is_Some_2 adjustedPoints k) as [p Hp]; [lia |].
    pose proof (Hdsp k p Hp) as Hk'. rewrite decide_False in Hk' by lia.
    assert (cum + scaledDistance adjustedPoints k
            = runningSum (scaledDistance adjustedPoints) k) as Hcum'.
    { rewrite Hcum. replace k with (S (k - 1)) at 2 3 by lia. done. }
    assert (∀ y, ∃ t', Some (<[k := withYear p y]> dsp,
                             cum + scaledDistance adjustedPoints k) = Some t'
                       ∧ (y = scaledYear adjustedPoints k → I (S k) t'))
      as Hstep.
    { intros y. eexists. split; [done |]. intros ->. unfold I. cbn [fst snd].
      split; [by rewrite length_insert |].
      split; [by replace (S k - 1)%nat with k by lia |].
      intros i q Hq. destruct (decide (i = k)) as [-> | Hi].
      - rewrite list_lookup_insert_eq by lia. rewrite decide_True by lia.
        by assert (q = p) as -> by congruence.
      - rewrite list_lookup_insert_ne by done. rewrite (Hdsp i q Hq).
        by destruct (decide (i < k)%nat), (decide (i < S k)%nat); try lia. }
    unfold positionStep. rewrite (Hsd k) by lia. simpl.
    destruct (Qlt_bool 0 total) eqn:Hguard.
    + rewrite fdiv_Some by (by apply Qlt_bool_iff). simpl.
      rewrite (setYear_Some _ _ _ p Hk'). simpl.
      destruct (Hstep (minYear + (cum + scaledDistance adjustedPoints k) / total
                                 * totalRange)) as (t' & Ht' & Hinv).
      exists t'. split; [done |]. apply Hinv.
      unfold scaledYear. destruct k as [|k']; [lia |].
      fold total. rewrite Hguard, Hcum'. unfold minYear, totalRange.
      by rewrite (yearAt_Some _ _ _ Hfirst), (yearAt_Some _ _ _ Hlast).
    + rewrite Hp. simpl. rewrite (setYear_Some _ _ _ p Hk'). simpl.
      destruct (Hstep (Year p)) as (t' & Ht' & Hinv).
      exists t'. split; [done |]. apply Hinv.
      unfold scaledYear. destruct k as [|k']; [lia |].
      fold total. rewrite Hguard. by rewrite (yearAt_Some _ _ _ Hp).
  - simpl in *. exists dsp. split.
    + unfold densityScale. rewrite Hfirst, Hlast. simpl. rewrite Hsc. simpl.
      rewrite (setYear_Some _ _ _ first Hfirst). simpl.
      unfold minYear, totalRange in Hrun. by rewrite Hrun.
    + split; [done |]. intros i p Hp. rewrite (Hdsp i p Hp).
      rewrite decide_True; [done |].
      apply lookup_lt_Some in Hp. lia.
Qed.

Lemma densityRescale_spec (adjustedPoints : list Point) :
  ∃ dsp,
    densityRescale adjustedPoints = Some dsp
    ∧ length dsp = length adjustedPoints
    ∧ ∀ i p, adjustedPoints !! i = Some p →
        dsp !! i = Some (scaledPoint adjustedPoints i p).
Proof.
  destruct (densityPass_spec adjustedPoints) as (ds & Hds & Hlen & Hd).
  unfold densityRescale. rewrite Hds. simpl.
  destruct (0 <? length adjustedPoints)%nat eqn:Hne.
  - apply Nat.ltb_lt in Hne. by apply densityScale_spec.
  - apply Nat.ltb_ge in Hne. exists adjustedPoints. split; [done |].
    split; [done |]. intros i p Hp. apply lookup_lt_Some in Hp. lia.
Qed.

(** *** Third pass *)

Lemma orderedPoint_Year (l : list Point) (i : nat) (p : Point) :
  l !! i = Some p → Year (orderedPoint l i p) = orderedYear l i.
Proof.
  intros Hp. destruct i as [|i]; simpl.
  - by rewrite (yearAt_Some _ _ _ Hp).
  - rewrite (yearAt_Some _ _ _ Hp).
    by destruct (Qle_bool (Year p) (orderedYear l i)).
Qed.

Lemma orderPass_spec (l : list Point) :
  ∃ out,
    orderPass l = Some out
    ∧ length out = length l
    ∧ ∀ i p, l !! i = Some p → out !! i = Some (orderedPoint l i p).
Proof.
  pose (I := λ (k : nat) (dsp : list Point),
    length dsp = length l
    ∧ ∀ i p, l !! i = Some p →
        dsp !! i = Some (if decide (i < k)%nat then orderedPoint l i p else p)).
  destruct (forLoop_inv I orderStep (length l - 1) 1 l)
    as (out & Hrun & Hlen & Hout).
  - split; [done |]. intros i p Hp.
    destruct (decide (i < 1)%nat) as [Hi |]; [| done].
    by assert (i = 0%nat) as -> by lia.
  - intros k dsp Hk [Hlen Hdsp].
    destruct (lookup_lt_is_Some_2 l k) as [p Hp]; [lia |].
    destruct (lookup_lt_is_Some_2 l (k - 1)) as [q Hq]; [lia |].
    pose proof (Hdsp k p Hp) as Hcur. rewrite decide_False in Hcur by lia.
    pose proof (Hdsp (k - 1)%nat q Hq) as Hprev.
    rewrite decide_True in Hprev by lia.
    unfold orderStep. rewrite Hcur, Hprev. simpl.
    rewrite (orderedPoint_Year _ _ _ Hq).
    assert (orderedPoint l k p
            = if Qle_bool (Year p) (orderedYear l (k - 1))
              then withYear p (orderedYear l (k - 1) + (1 # 10)) else p) as Hk'.
    { destruct k as [|k]; [lia |]. simpl. by rewrite Nat.sub_0_r. }
    destruct (Qle_bool (Year p) (orderedYear l (k - 1))) eqn:Hle.
    + rewrite (setYear_Some _ _ _ p Hcur). eexists. split; [done |].
      split; [by rewrite length_insert |].
      intros i r Hr. destruct (decide (i = k)) as [-> | Hne].
      * rewrite list_lookup_insert_eq by lia. rewrite decide_True by lia.
        assert (r = p) as -> by congruence. by rewrite Hk'.
      * rewrite list_lookup_insert_ne by done. rewrite (Hdsp i r Hr).
        by destruct (decide (i < k)%nat), (decide (i < S k)%nat); try lia.
    + eexists. split; [done |]. split; [done |].
      intros i r Hr. rewrite (Hdsp i r Hr).
      destruct (decide (i = k)) as [-> | Hne].
      * rewrite decide_False by lia. rewrite decide_True by lia.
        assert (r = p) as -> by congruence. by rewrite Hk'.
      * by destruct (decide (i < k)%nat), (decide (i < S k)%nat); try lia.
  - exists out. split; [done |]. split; [done |].
    intros i p Hp. rewrite (Hout i p Hp).
    rewrite decide_True; [done |]. apply lookup_lt_Some in Hp. lia.
Qed.

(** *** The pipeline *)

Lemma declutter_stages (points : list Point) :
  ∃ adjustedPoints densityScaledPoints out,
    sameYearPass points = Some adjustedPoints
    ∧ densityRescale adjustedPoints = Some densityScaledPoints
    ∧ orderPass densityScaledPoints = Some out
    ∧ declutter points = Some out
    ∧ (length adjustedPoints = length points
       ∧ length densityScaledPoints = length points
       ∧ length out = length points)
    ∧ (∀ i p, points !! i = Some p →
         adjustedPoints !! i = Some (spacedPoint points i p))
    ∧ (∀ i p, adjustedPoints !! i = Some p →
         densityScaledPoints !! i = Some (scaledPoint adjustedPoints i p))
    ∧ (∀ i p, densityScaledPoints !! i = Some p →
         out !! i = Some (orderedPoint densityScaledPoints i p)).
Proof.
  destruct (sameYearPass_spec points) as (adj & Hadj & Hl1 & H1).
  destruct (densityRescale_spec adj) as (dsp & Hdsp & Hl2 & H2).
  destruct (orderPass_spec dsp) as (out & Hout & Hl3 & H3).
  exists adj, dsp, out. repeat split; try done; try congruence.
  unfold declutter. rewrite Hadj. simpl. rewrite Hdsp. simpl.
  destruct (0 <? length dsp)%nat eqn:Hne; [done |].
  apply Nat.ltb_ge in Hne. destruct dsp; [| simpl in Hne; lia].
  by rewrite <- Hout.
Qed.

(** * Part III: properties of the passes *)

(** ** Counting *)

Lemma fold_count {A : Type} (f : A → bool) (l : list A) (a : nat) :
  fold_left (λ count x, if f x then S count else count) l a
  = (a + countWhere f l)%nat.
Proof.
  revert a. induction l as [|x l IH]; intros a; simpl.
  - unfold countWhere. simpl. lia.
  - rewrite IH. unfold countWhere. simpl. destruct (f x); simpl; lia.
Qed.

Lemma sameYearCount_count (points : list Point) (t : Q) :
  sameYearCount points t = sameTimeCount points t.
Proof. unfold sameYearCount. by rewrite fold_count. Qed.


Lemma eventIndexFrom_rank (ps : list Point) (t : Q) (d j acc : nat) (p : Point) :
  ps !! d = Some p → Qeq_bool (Year p) t = true →
  eventIndexFrom ps t (j + d) j acc
  = (acc + countWhere (λ q, Qeq_bool (Year q) t) (take d ps))%nat.
Proof.
  revert d j acc. induction ps as [|q ps IH]; intros d j acc Hp Ht; [done |].
  destruct d as [|d]; simpl in *.
  - assert (q = p) as -> by congruence. rewrite Ht.
    rewrite Nat.add_0_r, Nat.eqb_refl. unfold countWhere. simpl. lia.
  - replace (j + S d)%nat with (S j + d)%nat by lia.
    assert ((j =? S j + d)%nat = false) as -> by (apply Nat.eqb_neq; lia).
    unfold countWhere in *. simpl.
    destruct (Qeq_bool (Year q) t); rewrite (IH d (S j) _ Hp Ht); simpl; lia.
Qed.

Lemma eventIndex_rank (points : list Point) (i : nat) (p : Point) :
  points !! i = Some p →
  eventIndex points (Year p) i = sameTimeRank points i (Year p).
Proof.
  intros Hp. unfold eventIndex, sameTimeRank.
  exact (eventIndexFrom_rank points (Year p) i 0 0 p Hp (Qeq_bool_refl _)).
Qed.


Lemma countWhere_cons {A : Type} (f : A → bool) (x : A) (l : list A) :
  countWhere f (x :: l) = ((if f x then 1 else 0) + countWhere f l)%nat.
Proof. unfold countWhere. simpl. by destruct (f x). Qed.

Lemma countWhere_app {A : Type} (f : A → bool) (l1 l2 : list A) :
  countWhere f (l1 ++ l2) = (countWhere f l1 + countWhere f l2)%nat.
Proof. unfold countWhere. by rewrite List.filter_app, length_app. Qed.

(** ** The order pass *)

Lemma Qle_bool_false (x y : Q) : Qle_bool x y = false → y < x.
Proof.
  intros H. apply Qnot_le_lt. intros Hle.
  apply Qle_bool_iff in Hle. congruence.
Qed.

Lemma orderedYear_increasing (l : list Point) (i : nat) :
  orderedYear l i < orderedYear l (S i).
Proof.
  simpl. destruct (Qle_bool (yearAt l (S i)) (orderedYear l i)) eqn:Hle.
  - lra.
  - by apply Qle_bool_false.
Qed.

Lemma orderedYear_ge (l : list Point) (i : nat) :
  yearAt l i <= orderedYear l i.
Proof.
  destruct i as [|i]; simpl; [lra |].
  destruct (Qle_bool (yearAt l (S i)) (orderedYear l i)) eqn:Hle; [| lra].
  apply Qle_bool_iff in Hle. lra.
Qed.

Lemma orderPass_years (l : list Point) :
  ∃ out,
    orderPass l = Some out
    ∧ length out = length l
    ∧ ∀ i, (i < length l)%nat → yearAt out i = orderedYear l i.
Proof.
  destruct (orderPass_spec l) as (out & Hrun & Hlen & Hout).
  exists out. split; [done |]. split; [done |]. intros i Hi.
  destruct (lookup_lt_is_Some_2 l i) as [p Hp]; [done |].
  rewrite (yearAt_Some _ _ _ (Hout i p Hp)). by apply orderedPoint_Year.
Qed.

(** An order pass over strictly increasing years changes nothing. *)
Lemma orderedPoint_id (l : list Point) :
  (∀ i, (0 < i < length l)%nat → yearAt l (i - 1) < yearAt l i) →
  ∀ i p, l !! i = Some p →
    orderedYear l i = Year p ∧ orderedPoint l i p = p.
Proof.
  intros Hinc. induction i as [|i IH]; intros p Hp; simpl.
  - by rewrite (yearAt_Some _ _ _ Hp).
  - pose proof (lookup_lt_Some _ _ _ Hp) as Hi.
    destruct (lookup_lt_is_Some_2 l i) as [q Hq]; [lia |].
    destruct (IH q Hq) as [Hy _]. rewrite Hy, (yearAt_Some _ _ _ Hp).
    specialize (Hinc (S i)). simpl in Hinc. rewrite Nat.sub_0_r in Hinc.
    rewrite (yearAt_Some _ _ _ Hp), (yearAt_Some _ _ _ Hq) in Hinc.
    destruct (Qle_bool (Year p) (Year q)) eqn:Hle; [| done].
    apply Qle_bool_iff in Hle. specialize (Hinc ltac:(lia)). lra.
Qed.

(** ** Frame: only [Year] is written *)

Lemma sameFrame_withYear (p q : Point) (y : Q) :
  sameFrame p q → sameFrame p (withYear q y).
Proof. by intros [? ?]. Qed.

Lemma sameFrame_refl (p : Point) : sameFrame p p.
Proof. done. Qed.

Lemma spacedPoint_frame (points : list Point) (i : nat) (p : Point) :
  sameFrame p (spacedPoint points i p).
Proof.
  unfold spacedPoint. simpl.
  destruct (1 <? sameYearCount points (Year p))%nat;
    [apply sameFrame_withYear |]; apply sameFrame_refl.
Qed.

Lemma orderedPoint_frame (l : list Point) (i : nat) (p q : Point) :
  sameFrame p q → sameFrame p (orderedPoint l i q).
Proof.
  intros H. destruct i as [|i]; simpl; [done |].
  destruct (Qle_bool (Year q) (orderedYear l i)); [| done].
  by apply sameFrame_withYear.
Qed.

Lemma scaledPoint_frame (l : list Point) (i : nat) (p q : Point) :
  sameFrame p q → sameFrame p (scaledPoint l i q).
Proof. apply sameFrame_withYear. Qed.

(** ** Densities and scaled distances *)









(** ** Anchors of the second pass *)

Lemma ascending_step (l : list Point) (i : nat) :
  ascending l = true → (S i < length l)%nat → yearAt l i <= yearAt l (S i).
Proof.
  revert i. induction l as [|p l IH]; intros i Hasc Hi; [simpl in Hi; lia |].
  destruct l as [|q l]; [simpl in Hi; lia |].
  simpl in Hasc. apply andb_true_iff in Hasc as [Hpq Hasc].
  destruct i as [|i].
  - by apply Qle_bool_iff in Hpq.
  - apply (IH i Hasc). simpl in *. lia.
Qed.

Lemma ascending_le (l : list Point) (i j : nat) :
  ascending l = true → (i ≤ j < length l)%nat → yearAt l i <= yearAt l j.
Proof.
  intros Hasc [Hij Hj]. induction j as [|j IH].
  - replace i with 0%nat by lia. lra.
  - destruct (decide (i = S j)) as [-> | Hne]; [lra |].
    pose proof (ascending_step l j Hasc Hj).
    specialize (IH ltac:(lia) ltac:(lia)). lra.
Qed.











(** ** The fan of the first pass *)





(** A point of the group is counted after the points that precede it. *)
Lemma sameTimeRank_lt_count (points : list Point) (i : nat) (p : Point) (t : Q) :
  points !! i = Some p → Qeq_bool (Year p) t = true →
  (sameTimeRank points i t < sameTimeCount points t)%nat.
Proof.
  intros Hp Ht. unfold sameTimeRank, sameTimeCount.
  rewrite <- (take_drop_middle points i p Hp) at 2.
  rewrite countWhere_app. unfold countWhere at 3. simpl. rewrite Ht. simpl. lia.
Qed.

Lemma ofInt_S (n : nat) : ofInt (S n) == ofInt n + 1.
Proof.
  unfold ofInt. rewrite Nat2Z.inj_succ, <- Z.add_1_r, inject_Z_plus. reflexivity.
Qed.

Lemma ofInt_pred (n : nat) : (1 ≤ n)%nat → ofInt (n - 1) == ofInt n - 1.
Proof.
  intros Hn. destruct n as [|n]; [lia |].
  replace (S n - 1)%nat with n by lia. rewrite ofInt_S. ring.
Qed.

(** The year the first pass leaves at index [i], by the formula of the
    specification. *)
Lemma spacedPoint_year (points : list Point) (i : nat) (p : Point) :
  points !! i = Some p →
  (1 < sameTimeCount points (Year p))%nat →
  Year (spacedPoint points i p)
  == Year p - (ofInt (sameTimeCount points (Year p)) - 1) * (2 # 10) / 2
     + ofInt (sameTimeRank points i (Year p)) * (2 # 10).
Proof.
  intros Hp Hn. unfold spacedPoint.
  rewrite sameYearCount_count, (eventIndex_rank _ _ _ Hp).
  assert ((1 <? sameTimeCount points (Year p))%nat = true) as ->
    by (by apply Nat.ltb_lt).
  simpl. unfold newYear, spacing. rewrite ofInt_pred by lia. reflexivity.
Qed.

Lemma spacedPoint_alone (points : list Point) (i : nat) (p : Point) :
  sameTimeCount points (Year p) = 1%nat → spacedPoint points i p = p.
Proof.
  intros Hn. unfold spacedPoint. rewrite sameYearCount_count, Hn. done.
Qed.


Lemma sumTo_ext (g h : nat → Q) (n : nat) :
  (∀ k, (k < n)%nat → g k == h k) → sumTo g n == sumTo h n.
Proof.
  induction n as [|n IH]; intros Hgh; [reflexivity |].
  simpl. rewrite IH, (Hgh n) by (intros; try apply Hgh; lia). reflexivity.
Qed.




(** ** Density sensitivity *)







Lemma ofInt_le (m n : nat) : (m ≤ n)%nat → ofInt m <= ofInt n.
Proof. intros H. unfold ofInt. rewrite <- Zle_Qle. lia. Qed.




(** * Part IV: the claims *)



(** C2. The pipeline returns a slice of the length of its input in which
    the point at every index has the [Value] and the [Label] of the input
    point at that index. *)
Theorem declutter_frame (points : list Point) :
  ∃ out,
    declutter points = Some out
    ∧ length out = length points
    ∧ ∀ i p, points !! i = Some p →
        ∃ q, out !! i = Some q ∧ Value q = Value p ∧ Label q = Label p.
Proof.
  destruct (declutter_stages points)
    as (adj & dsp & out & _ & _ & _ & Hrun & (_ & _ & Hlen) & H1 & H2 & H3).
  exists out. split; [done |]. split; [done |]. intros i p Hp.
  eexists. split; [eauto |].
  apply orderedPoint_frame, scaledPoint_frame, spacedPoint_frame.
Qed.

(** On the scenario: the point at index 1 keeps the value 20 and the label B. *)
Lemma declutter_frame_witness :
  ∃ out q, declutter scenario = Some out ∧ out !! 1%nat = Some q
           ∧ Value q = 20 ∧ Label q = "B"%string.
Proof.
  destruct (declutter_frame scenario) as (out & Hrun & _ & H).
  destruct (H 1%nat (pt 1990 20 "B") eq_refl) as (q & Hq & Hv & Hl).
  exists out, q. repeat split; assumption.
Defined.






(** The same with whole years: the first pass moves the first of the
    twelve points of 1991 to 1989.9, before the point of 1990 that stays at
    index 0. *)
Lemma densityRescale_anchors_whole_years :
  ∃ adjustedPoints out,
    sameYearPass wholeYears = Some adjustedPoints
    ∧ densityRescale adjustedPoints = Some out
    ∧ Qred (yearAt adjustedPoints 1) = 19899 # 10
    ∧ Qred (minYearOf adjustedPoints) = 19899 # 10
    ∧ Qred (yearAt out 0) = 1990.
Proof.
  eexists. eexists.
  split; [vm_compute; reflexivity |]. split; [vm_compute; reflexivity |].
  repeat split; vm_compute; reflexivity.
Qed.

(** C5. The second pass never divides by zero: it returns a result for
    every input, also when [totalScaledDistance] is zero.  The division is
    under the guard [totalScaledDistance > 0]: where the guard holds the
    divisor is not zero, and where it fails the step of the loop of line 196
    is the assignment of line 204, so that every point of index [1 <= i]
    keeps its year. *)
Theorem densityRescale_guarded (l : list Point) :
  ∃ densities scaledDistances out,
    densityPass l = Some densities
    ∧ scalePass l densities = Some (scaledDistances, totalScaledDistance l)
    ∧ densityRescale l = Some out
    ∧ (∀ total cum, 0 < total → fdiv cum total = Some (cum / total))
    ∧ (∀ total sd minYear totalRange i st, ¬ 0 < total →
         positionStep l sd total minYear totalRange i st
         = (d ← sd !! i; p ← l !! i; dsp ← setYear i (Year p) (fst st);
            Some (dsp, snd st + d)))
    ∧ (¬ 0 < totalScaledDistance l →
       ∀ i p, (1 ≤ i)%nat → l !! i = Some p → out !! i = Some p).
Proof.
  destruct (densityPass_spec l) as (ds & Hds & Hlen & Hd).
  destruct (scalePass_spec l ds Hlen Hd) as (sd & Hsc & _).
  destruct (densityRescale_spec l) as (out & Hrun & _ & Hout).
  exists ds, sd, out. split; [done |]. split; [done |]. split; [done |].
  split; [intros; by apply fdiv_Some |]. split.
  - intros total sd' minYear totalRange i st Hguard. unfold positionStep.
    destruct (Qlt_bool 0 total) eqn:Hlt; [| done].
    by apply Qlt_bool_iff in Hlt.
  - intros Hguard i p Hi Hp. rewrite (Hout i p Hp). f_equal.
    unfold scaledPoint, scaledYear. destruct i as [|i]; [lia |].
    destruct (Qlt_bool 0 (totalScaledDistance l)) eqn:Hlt.
    + by apply Qlt_bool_iff in Hlt.
    + rewrite (yearAt_Some _ _ _ Hp). apply withYear_Year.
Qed.

(** On two coincident points the total scaled distance is 0 and the second
    point keeps its year. *)
Lemma densityRescale_guarded_witness :
  ∃ out, densityRescale coincident = Some out
         ∧ fdiv 1 2 = Some (1 / 2)
         ∧ out !! 1%nat = Some (pt 5 2 "b").
Proof.
  destruct (densityRescale_guarded coincident)
    as (ds & sd & out & _ & _ & Hrun & Hdiv & _ & Hkeep).
  exists out. split; [exact Hrun |]. split; [apply Hdiv; reflexivity |].
  apply Hkeep; [| simpl; lia | reflexivity].
  vm_compute. discriminate.
Defined.

(** C6. The scenario [(1990, 10, A), (1990, 20, B), (1995, 5, C)]: the first
    pass finds two points of year 1990, with total offset 0.1 and event
    indexes 0 and 1, and returns the years 1989.9, 1990.1, 1995; the second
    pass keeps 1989.9 and 1995 and moves only the middle point; the order
    pass finds neither comparison true and returns its input. *)
Theorem scenario_trace :
  ∃ adjustedPoints densityScaledPoints,
    sameYearPass scenario = Some adjustedPoints
    ∧ densityRescale adjustedPoints = Some densityScaledPoints
    ∧ orderPass densityScaledPoints = Some densityScaledPoints
    ∧ declutter scenario = Some densityScaledPoints
    ∧ sameYearCount scenario 1990 = 2%nat
    ∧ sameYearCount scenario 1995 = 1%nat
    ∧ adjustedPoints !! 2%nat = Some (pt 1995 5 "C")
    ∧ ofInt (2 - 1) * spacing / 2 == 1 # 10
    ∧ eventIndex scenario 1990 0 = 0%nat
    ∧ eventIndex scenario 1990 1 = 1%nat
    ∧ map Qred (years adjustedPoints) = [19899 # 10; 19901 # 10; 1995]
    ∧ map Qred (years densityScaledPoints)
      = [19899 # 10; 2408119 # 1210; 1995]
    ∧ Qle_bool (yearAt densityScaledPoints 1) (yearAt densityScaledPoints 0)
      = false
    ∧ Qle_bool (yearAt densityScaledPoints 2) (yearAt densityScaledPoints 1)
      = false.
Proof.
  eexists. eexists.
  split; [vm_compute; reflexivity |]. split; [vm_compute; reflexivity |].
  repeat split; vm_compute; reflexivity.
Qed.





(** C8. A one-point input comes back unchanged from each of the three
    passes and from the pipeline; the loops that start at index 1 run no
    iteration on it. *)
Theorem declutter_single_point (p : Point) :
  sameYearPass [p] = Some [p]
  ∧ densityRescale [p] = Some [p]
  ∧ orderPass [p] = Some [p]
  ∧ declutter [p] = Some [p]
  ∧ ∀ (St : Type) (body : nat → St → option St) (s : St),
      forLoop body 1 (length [p] - 1) s = Some s.
Proof.
  assert (sameYearPass [p] = Some [p]) as H1.
  { unfold sameYearPass, sameYearStep, sameYearCount. simpl.
    by rewrite Qeq_bool_refl. }
  assert (densityRescale [p] = Some [p]) as H2.
  { unfold densityRescale, densityScale. simpl. unfold setYear. simpl.
    by rewrite withYear_Year. }
  assert (orderPass [p] = Some [p]) as H3 by done.
  repeat split; try done.
  destruct (declutter_stages [p]) as (adj & dsp & out & E1 & E2 & E3 & E4 & _).
  congruence.
Qed.



(** C10. The order pass never moves a point earlier:
    [in[i].Year <= out[i].Year] at every index, and a slice whose years are
    already strictly increasing is returned unchanged. *)
Theorem orderPass_never_earlier (l : list Point) :
  ∃ out,
    orderPass l = Some out
    ∧ length out = length l
    ∧ (∀ i, (i < length l)%nat → yearAt l i <= yearAt out i)
    ∧ ((∀ i, (0 < i < length l)%nat → yearAt l (i - 1) < yearAt l i) →
       out = l).
Proof.
  destruct (orderPass_spec l) as (out & Hrun & Hlen & Hout).
  destruct (orderPass_years l) as (out' & Hrun' & _ & Hy).
  assert (out' = out) as -> by congruence.
  exists out. split; [done |]. split; [done |]. split.
  - intros i Hi. rewrite (Hy i Hi). apply orderedYear_ge.
  - intros Hinc. apply list_eq. intros i.
    destruct (l !! i) as [p |] eqn:Hp.
    + rewrite (Hout i p Hp). f_equal. by apply orderedPoint_id.
    + apply lookup_ge_None. apply lookup_ge_None in Hp. lia.
Qed.

(** On the scenario after the first pass, whose years are strictly
    increasing. *)
Lemma orderPass_never_earlier_witness :
  ∃ out, orderPass scenarioSpaced = Some out
         ∧ yearAt scenarioSpaced 1 <= yearAt out 1 ∧ out = scenarioSpaced.
Proof.
  destruct (orderPass_never_earlier scenarioSpaced)
    as (out & Hrun & _ & Hge & Hid).
  exists out. split; [exact Hrun |]. split.
  - apply (Hge 1%nat). simpl. lia.
  - apply Hid. intros i Hi.
    destruct i as [|[|[|i]]]; simpl in Hi; try lia; reflexivity.
Defined.

(** * Part V: further properties of the passes *)

(** ** Counting a single member *)

Lemma countWhere_zero {A : Type} (f : A → bool) (l : list A) :
  (∀ j x, l !! j = Some x → f x = false) → countWhere f l = 0%nat.
Proof.
  induction l as [|y l IH]; intros Hf; [done |].
  rewrite countWhere_cons, (Hf 0%nat y eq_refl), IH; [done |].
  intros j x Hx. apply (Hf (S j) x Hx).
Qed.

Lemma countWhere_unique {A : Type} (f : A → bool) (l : list A) (i : nat) (x : A) :
  l !! i = Some x → f x = true →
  (∀ j y, l !! j = Some y → f y = true → j = i) →
  countWhere f l = 1%nat.
Proof.
  intros Hx Hfx Honly. rewrite <- (take_drop_middle l i x Hx).
  rewrite countWhere_app, countWhere_cons, Hfx.
  rewrite !countWhere_zero; [done | |].
  - intros j y Hy. destruct (f y) eqn:Hfy; [| done].
    rewrite lookup_drop in Hy. specialize (Honly _ _ Hy Hfy). lia.
  - intros j y Hy. destruct (f y) eqn:Hfy; [| done].
    apply lookup_take_Some in Hy as [Hy Hj].
    specialize (Honly _ _ Hy Hfy). lia.
Qed.


(** The year the first pass leaves, as a displacement in tenths. *)
Lemma spacedPoint_shift (points : list Point) (i : nat) (p : Point) :
  points !! i = Some p →
  (1 < sameTimeCount points (Year p))%nat →
  Year (spacedPoint points i p)
  == Year p
     + (2 * ofInt (sameTimeRank points i (Year p))
        - (ofInt (sameTimeCount points (Year p)) - 1)) * (1 # 10).
Proof.
  intros Hp Hn. rewrite (spacedPoint_year points i p Hp Hn). field.
Qed.

Lemma ofInt_lt (m n : nat) : (m < n)%nat → ofInt m + 1 <= ofInt n.
Proof.
  intros H. rewrite <- ofInt_S. apply ofInt_le. lia.
Qed.

Lemma ofInt_nonneg (n : nat) : 0 <= ofInt n.
Proof. change 0 with (ofInt 0). apply ofInt_le. lia. Qed.

(** ** Years in strict order *)


Lemma orderPass_fixed (l : list Point) :
  strictlyIncreasing l → orderPass l = Some l.
Proof.
  intros Hinc. destruct (orderPass_spec l) as (out & Hrun & Hlen & Hout).
  rewrite Hrun. f_equal. apply list_eq. intros i.
  destruct (l !! i) as [p |] eqn:Hp.
  - rewrite (Hout i p Hp). f_equal. by apply orderedPoint_id.
  - apply lookup_ge_None. apply lookup_ge_None in Hp. lia.
Qed.


(** ** More on the first pass *)

Lemma sameTimeCount_alone (points : list Point) (i : nat) (p : Point) :
  points !! i = Some p →
  (∀ j q, points !! j = Some q → Year q == Year p → j = i) →
  sameTimeCount points (Year p) = 1%nat.
Proof.
  intros Hp Honly. unfold sameTimeCount.
  apply (countWhere_unique _ points i p Hp (Qeq_bool_refl _)).
  intros j q Hq Hy. apply (Honly j q Hq). by apply Qeq_bool_iff.
Qed.


(** X1. Where no two points share a year the first pass returns the slice
    it was given. *)
Theorem sameYearPass_distinct_years (points : list Point) :
  (∀ i j p q, points !! i = Some p → points !! j = Some q →
     Year p == Year q → i = j) →
  sameYearPass points = Some points.
Proof.
  intros Hdistinct.
  destruct (sameYearPass_spec points) as (adj & Hrun & Hlen & Hadj).
  rewrite Hrun. f_equal. apply list_eq. intros i.
  destruct (points !! i) as [p |] eqn:Hp.
  - rewrite (Hadj i p Hp). f_equal. apply spacedPoint_alone.
    apply (sameTimeCount_alone points i p Hp).
    intros j q Hq Hy. by apply (Hdistinct j i q p).
  - apply lookup_ge_None. apply lookup_ge_None in Hp. lia.
Qed.

(** On the scenario after the first pass, whose three years differ. *)
Lemma sameYearPass_distinct_years_witness :
  sameYearPass scenarioSpaced = Some scenarioSpaced.
Proof.
  apply sameYearPass_distinct_years. intros i j p q Hp Hq Hy.
  destruct i as [|[|[|i]]]; try discriminate Hp;
    destruct j as [|[|[|j]]]; try discriminate Hq; try reflexivity;
    injection Hp as <-; injection Hq as <-; vm_compute in Hy; discriminate Hy.
Defined.





(** X4. The first pass never moves the first point later nor the last point
    earlier, so that on ascending years the range [maxYear - minYear] of
    line 174 is not negative. *)
Theorem sameYearPass_ends (points : list Point) :
  points ≠ [] →
  ∃ adjustedPoints,
    sameYearPass points = Some adjustedPoints
    ∧ yearAt adjustedPoints 0 <= yearAt points 0
    ∧ yearAt points (length points - 1)
      <= yearAt adjustedPoints (length points - 1)
    ∧ (ascending points = true →
       0 <= yearAt adjustedPoints (length points - 1)
            - yearAt adjustedPoints 0).
Proof.
  intros Hne.
  assert (0 < length points)%nat as Hlen0 by (destruct points; [done | simpl; lia]).
  destruct (sameYearPass_spec points) as (adj & Hrun & Hlen & Hadj).
  exists adj. split; [done |].
  destruct (lookup_lt_is_Some_2 points 0) as [p Hp]; [lia |].
  destruct (lookup_lt_is_Some_2 points (length points - 1)) as [q Hq]; [lia |].
  assert (yearAt adj 0 <= yearAt points 0) as Hfirst.
  { rewrite (yearAt_Some _ _ _ (Hadj _ p Hp)), (yearAt_Some _ _ _ Hp).
    destruct (decide (1 < sameTimeCount points (Year p))%nat) as [Hn | Hn].
    - rewrite spacedPoint_shift by done.
      assert (sameTimeRank points 0 (Year p) = 0%nat) as -> by done.
      pose proof (ofInt_lt 1 _ Hn) as H1. change (ofInt 1) with 1 in H1.
      change (ofInt 0) with 0. lra.
    - pose proof (sameTimeRank_lt_count points 0 p (Year p) Hp
                    (Qeq_bool_refl _)).
      rewrite spacedPoint_alone by lia. lra. }
  assert (yearAt points (length points - 1) <= yearAt adj (length points - 1))
    as Hlast.
  { rewrite (yearAt_Some _ _ _ (Hadj _ q Hq)), (yearAt_Some _ _ _ Hq).
    destruct (decide (1 < sameTimeCount points (Year q))%nat) as [Hn | Hn].
    - rewrite spacedPoint_shift by done.
      assert (sameTimeCount points (Year q)
              = S (sameTimeRank points (length points - 1) (Year q))) as Hrank.
      { unfold sameTimeCount, sameTimeRank.
        rewrite <- (take_drop_middle points _ q Hq) at 1.
        rewrite countWhere_app, countWhere_cons, Qeq_bool_refl.
        rewrite drop_ge by lia. unfold countWhere at 2. simpl. lia. }
      rewrite Hrank, ofInt_S.
      pose proof (ofInt_nonneg (sameTimeRank points (length points - 1) (Year q))).
      lra.
    - pose proof (sameTimeRank_lt_count points _ q (Year q) Hq
                    (Qeq_bool_refl _)).
      rewrite spacedPoint_alone by lia. lra. }
  split; [done |]. split; [done |]. intros Hasc.
  pose proof (ascending_le points 0 (length points - 1) Hasc ltac:(lia)). lra.
Qed.

(** On the scenario, which is ascending. *)
Lemma sameYearPass_ends_witness :
  ∃ adjustedPoints,
    sameYearPass scenario = Some adjustedPoints
    ∧ yearAt adjustedPoints 0 <= 1990
    ∧ 0 <= yearAt adjustedPoints 2 - yearAt adjustedPoints 0.
Proof.
  destruct (sameYearPass_ends scenario ltac:(discriminate))
    as (adj & Hrun & Hfirst & _ & Hrange).
  exists adj. split; [exact Hrun |]. split; [exact Hfirst |].
  apply Hrange. reflexivity.
Defined.

(** ** More on the second pass *)















(** *** Uniform density *)






(** *** Sparse timelines *)






(** ** More on the order pass *)

(** X9. The order pass is idempotent: run on its own result it changes
    nothing. *)
Theorem orderPass_idempotent (l : list Point) :
  ∃ out, orderPass l = Some out ∧ orderPass out = Some out.
Proof.
  destruct (orderPass_years l) as (out & Hrun & Hlen & Hy).
  exists out. split; [done |]. apply orderPass_fixed.
  intros i Hi. rewrite Hlen in Hi. rewrite !Hy by lia.
  replace i with (S (i - 1)) at 2 by lia. apply orderedYear_increasing.
Qed.

(** * Part VI: reading the points and building the chart *)

(** ** [readCSV] *)

Lemma readRows_inr (lib : Library) (rows : list (list string)) (i : nat)
    (pts out : list Point) :
  readRows lib rows i pts = inr out →
  ∃ new,
    out = pts ++ new
    ∧ length new = length rows
    ∧ ∀ k row, rows !! k = Some row →
        ∃ p, new !! k = Some p ∧ readRow lib (i + k) row = inr p.
Proof.
  revert i pts. induction rows as [|row rows IH]; intros i pts Hrun; simpl in Hrun.
  - injection Hrun as <-. exists []. split; [by rewrite app_nil_r |].
    split; [done |]. intros k r Hk. done.
  - destruct (readRow lib i row) as [e | p] eqn:Hrow; [done |].
    destruct (IH _ _ Hrun) as (new & -> & Hlen & Hnew).
    exists (p :: new). split; [by rewrite <- app_assoc |].
    split; [simpl; by rewrite Hlen |]. intros k r Hk.
    destruct k as [|k]; simpl in Hk.
    + injection Hk as <-. exists p. by rewrite Nat.add_0_r.
    + destruct (Hnew k r Hk) as (q & Hq & Hread). exists q.
      split; [done |]. by replace (i + S k)%nat with (S i + k)%nat by lia.
Qed.

Lemma readRows_inl (lib : Library) (rows : list (list string)) (i : nat)
    (pts : list Point) (e : ReadError) :
  readRows lib rows i pts = inl e →
  ∃ k row,
    rows !! k = Some row
    ∧ readRow lib (i + k) row = inl e
    ∧ ∀ j row', (j < k)%nat → rows !! j = Some row' →
        ∃ p, readRow lib (i + j) row' = inr p.
Proof.
  revert i pts. induction rows as [|row rows IH]; intros i pts Hrun;
    simpl in Hrun; [done |].
  destruct (readRow lib i row) as [e' | p] eqn:Hrow.
  - injection Hrun as <-. exists 0%nat, row. rewrite Nat.add_0_r.
    split; [done |]. split; [done |]. intros; lia.
  - destruct (IH _ _ Hrun) as (k & r & Hk & Hread & Hbefore).
    exists (S k), r. split; [done |].
    split; [by replace (i + S k)%nat with (S i + k)%nat by lia |].
    intros j r' Hj Hr'. destruct j as [|j]; simpl in Hr'.
    + injection Hr' as <-. exists p. by rewrite Nat.add_0_r.
    + replace (i + S j)%nat with (S i + j)%nat by lia.
      apply (Hbefore j r'); [lia | done].
Qed.

Lemma readRow_inr (lib : Library) (i : nat) (row : list string) (p : Point) :
  readRow lib i row = inr p →
  ∃ c0 c1 rest,
    row = c0 :: c1 :: rest
    ∧ ParseFloat lib (TrimSpace lib c0) = inr (Year p)
    ∧ ParseFloat lib (TrimSpace lib c1) = inr (Value p)
    ∧ Label p
      = (let third := match rest with
                      | c2 :: _ => TrimSpace lib c2
                      | [] => ""%string
                      end in
         if String.eqb third "" then DefaultLabel lib (Year p) (Value p)
         else third).
Proof.
  intros Hrow. destruct row as [|c0 [|c1 rest]]; try discriminate Hrow.
  simpl in Hrow.
  destruct (ParseFloat lib (TrimSpace lib c0)) as [e | year] eqn:Hy; [done |].
  destruct (ParseFloat lib (TrimSpace lib c1)) as [e | val] eqn:Hv; [done |].
  injection Hrow as <-. exists c0, c1, rest. simpl.
  split; [done |]. split; [done |]. split; [done |].
  by destruct rest.
Qed.

Lemma readRow_inl (lib : Library) (i : nat) (row : list string) (e : ReadError) :
  readRow lib i row = inl e →
  errorRow e = Some (i + 1)%nat
  ∧ match e with
    | ColumnCount _ got => got = length row ∧ (got < 2)%nat
    | InvalidYear _ yearStr err =>
        ∃ c0 rest, row = c0 :: rest ∧ yearStr = TrimSpace lib c0
                   ∧ ParseFloat lib yearStr = inl err
    | InvalidValue _ valStr err =>
        ∃ c0 c1 rest, row = c0 :: c1 :: rest ∧ valStr = TrimSpace lib c1
                      ∧ ParseFloat lib valStr = inl err
                      ∧ ∃ year, ParseFloat lib (TrimSpace lib c0) = inr year
    | IOError _ | EmptyCSV => False
    end.
Proof.
  intros Hrow. destruct row as [|c0 [|c1 rest]]; simpl in Hrow.
  - injection Hrow as <-. simpl. split; [done |]. split; [done | lia].
  - injection Hrow as <-. simpl. split; [done |]. split; [done | lia].
  - destruct (ParseFloat lib (TrimSpace lib c0)) as [err | year] eqn:Hy.
    + injection Hrow as <-. simpl. split; [done |]. by exists c0, (c1 :: rest).
    + destruct (ParseFloat lib (TrimSpace lib c1)) as [err | val] eqn:Hv;
        [| done].
      injection Hrow as <-. simpl. split; [done |].
      exists c0, c1, rest. repeat split; try done. by exists year.
Qed.

(** X10. When [readCSV] succeeds it returns one point for each row of the
    file, in the order of the rows and never none; every row has at least
    two columns, and the year and the value of its point are what
    [ParseFloat] makes of the first two columns, trimmed. *)
Theorem readCSV_points (lib : Library) (path : string) (points : list Point) :
  readCSV lib path = inr points →
  ∃ rows,
    ReadAll lib path = inr rows
    ∧ length points = length rows
    ∧ points ≠ []
    ∧ ∀ k row, rows !! k = Some row →
        ∃ p c0 c1 rest,
          points !! k = Some p
          ∧ row = c0 :: c1 :: rest
          ∧ ParseFloat lib (TrimSpace lib c0) = inr (Year p)
          ∧ ParseFloat lib (TrimSpace lib c1) = inr (Value p).
Proof.
  unfold readCSV. intros Hrun.
  destruct (ReadAll lib path) as [err | rows]; [done |].
  destruct (length rows =? 0)%nat eqn:Hempty; [done |].
  apply Nat.eqb_neq in Hempty.
  destruct (readRows_inr _ _ _ _ _ Hrun) as (new & -> & Hlen & Hnew).
  simpl. exists rows. split; [done |]. split; [done |]. split.
  - intros ->. simpl in Hlen. lia.
  - intros k row Hk. destruct (Hnew k row Hk) as (p & Hp & Hrow).
    destruct (readRow_inr _ _ _ _ Hrow) as (c0 & c1 & rest & -> & Hy & Hv & _).
    by exists p, c0, c1, rest.
Qed.

(** On the file of two rows of the example library. *)
Lemma readCSV_points_witness :
  ∃ rows,
    ReadAll exampleLibrary "ok.csv" = inr rows
    ∧ length [pt 1990 10 "A"; pt 1995 5 "1995, 5.00"] = length rows.
Proof.
  destruct (readCSV_points exampleLibrary "ok.csv"
              [pt 1990 10 "A"; pt 1995 5 "1995, 5.00"] eq_refl)
    as (rows & Hrows & Hlen & _).
  exists rows. split; [exact Hrows | exact Hlen].
Defined.

(** X11. No point that [readCSV] returns has an empty label, given that
    the default label [Sprintf("%.0f, %.2f", ...)] is never empty: the label
    is the third column, trimmed, or the default label when that is
    empty or missing. *)
Theorem readCSV_labels (lib : Library) (path : string) (points : list Point) :
  (∀ year val, DefaultLabel lib year val ≠ ""%string) →
  readCSV lib path = inr points →
  ∀ k p, points !! k = Some p → Label p ≠ ""%string.
Proof.
  unfold readCSV. intros Hdefault Hrun k p Hp.
  destruct (ReadAll lib path) as [err | rows]; [done |].
  destruct (length rows =? 0)%nat; [done |].
  destruct (readRows_inr _ _ _ _ _ Hrun) as (new & -> & Hlen & Hnew).
  simpl in Hp.
  destruct (lookup_lt_is_Some_2 rows k) as [row Hrow].
  { rewrite <- Hlen. by eapply lookup_lt_Some. }
  destruct (Hnew k row Hrow) as (q & Hq & Hread).
  assert (q = p) as -> by congruence.
  destruct (readRow_inr _ _ _ _ Hread) as (c0 & c1 & rest & _ & _ & _ & ->).
  simpl.
  destruct (String.eqb _ "") eqn:Hthird; [apply Hdefault |].
  by apply String.eqb_neq in Hthird.
Qed.

(** On the second row of the file, which has no third column. *)
Lemma readCSV_labels_witness :
  Label (pt 1995 5 "1995, 5.00") ≠ ""%string.
Proof.
  apply (readCSV_labels exampleLibrary "ok.csv"
           [pt 1990 10 "A"; pt 1995 5 "1995, 5.00"]
           ltac:(discriminate) eq_refl 1%nat).
  reflexivity.
Defined.

(** X12. An error of [readCSV] that names a row names the first row that
    cannot be read, counted from 1: a row of fewer than two columns, or
    whose first or second column does not parse; every row before it can be
    read.  Any other error is the error of opening or reading the file, or
    the error for a file of no rows. *)
Theorem readCSV_first_bad_row (lib : Library) (path : string) (e : ReadError) :
  readCSV lib path = inl e →
  match errorRow e with
  | Some r =>
      ∃ rows row,
        ReadAll lib path = inr rows
        ∧ (1 ≤ r)%nat
        ∧ rows !! (r - 1)%nat = Some row
        ∧ readRow lib (r - 1) row = inl e
        ∧ ∀ j row', (j < r - 1)%nat → rows !! j = Some row' →
            ∃ p, readRow lib j row' = inr p
  | None =>
      (∃ err, ReadAll lib path = inl err ∧ e = IOError err)
      ∨ (ReadAll lib path = inr [] ∧ e = EmptyCSV)
  end.
Proof.
  unfold readCSV. intros Hrun.
  destruct (ReadAll lib path) as [err | rows].
  { injection Hrun as <-. simpl. left. by exists err. }
  destruct (length rows =? 0)%nat eqn:Hempty.
  { injection Hrun as <-. simpl. right. split; [| done].
    apply Nat.eqb_eq in Hempty. by destruct rows. }
  destruct (readRows_inl _ _ _ _ _ Hrun) as (k & row & Hk & Hread & Hbefore).
  simpl in Hread. destruct (readRow_inl _ _ _ _ Hread) as [Herr _].
  rewrite Herr. replace (k + 1 - 1)%nat with k by lia.
  exists rows, row. split; [done |]. split; [lia |]. split; [done |].
  split; [done |]. intros j row' Hj Hrow'. by apply (Hbefore j row').
Qed.

(** On the file whose second row has one column. *)
Lemma readCSV_first_bad_row_witness :
  ∃ rows row,
    ReadAll exampleLibrary "short.csv" = inr rows
    ∧ (1 ≤ 2)%nat
    ∧ rows !! (2 - 1)%nat = Some row
    ∧ readRow exampleLibrary (2 - 1) row = inl (ColumnCount 2 1)
    ∧ ∀ j row', (j < 2 - 1)%nat → rows !! j = Some row' →
        ∃ p, readRow exampleLibrary j row' = inr p.
Proof.
  exact (readCSV_first_bad_row exampleLibrary "short.csv" (ColumnCount 2 1)
           eq_refl).
Defined.

(** X13. [readCSV] fails only for a reason: on a file that opens and has
    rows that all can be read, it succeeds. *)
Theorem readCSV_succeeds (lib : Library) (path : string)
    (rows : list (list string)) :
  ReadAll lib path = inr rows →
  rows ≠ [] →
  (∀ k row, rows !! k = Some row → ∃ p, readRow lib k row = inr p) →
  ∃ points, readCSV lib path = inr points ∧ length points = length rows.
Proof.
  intros Hrows Hne Hgood. unfold readCSV. rewrite Hrows.
  destruct (length rows =? 0)%nat eqn:Hempty.
  { apply Nat.eqb_eq in Hempty. by destruct rows. }
  destruct (readRows lib rows 0 []) as [e | points] eqn:Hrun.
  - destruct (readRows_inl _ _ _ _ _ Hrun) as (k & row & Hk & Hread & _).
    destruct (Hgood k row Hk) as (p & Hp). simpl in Hread. congruence.
  - destruct (readRows_inr _ _ _ _ _ Hrun) as (new & -> & Hlen & _).
    by exists new.
Qed.

(** On the file of two rows of the example library. *)
Lemma readCSV_succeeds_witness :
  ∃ points, readCSV exampleLibrary "ok.csv" = inr points
            ∧ length points = 2%nat.
Proof.
  apply (readCSV_succeeds exampleLibrary "ok.csv"
           [["1990"; "10"; "A"]; ["1995"; "5"]]%string eq_refl ltac:(discriminate)).
  intros k row Hk. destruct k as [|[|k]]; try discriminate Hk;
    injection Hk as <-; eexists; reflexivity.
Defined.

(** ** [main] up to the adjusted points *)

Lemma declutter_result (l : list Point) :
  ∃ out,
    declutter l = Some out
    ∧ length out = length l
    ∧ strictlyIncreasing out
    ∧ map valueAndLabel out = map valueAndLabel l.
Proof.
  destruct (declutter_stages l)
    as (adj & dsp & out & _ & _ & Hord & Hrun & (_ & Hl2 & Hl3) & H1 & H2 & H3).
  destruct (orderPass_years dsp) as (out' & Hord' & _ & Hy).
  assert (out' = out) as -> by congruence.
  exists out. split; [done |]. split; [done |]. split.
  - intros i Hi. rewrite Hl3, <- Hl2 in Hi. rewrite !Hy by lia.
    replace i with (S (i - 1)) at 2 by lia. apply orderedYear_increasing.
  - apply list_eq. intros i. rewrite !list_lookup_fmap.
    destruct (l !! i) as [p |] eqn:Hp; simpl.
    + rewrite (H3 i _ (H2 i _ (H1 i p Hp))). simpl. unfold valueAndLabel.
      destruct (orderedPoint_frame dsp i p _
                  (scaledPoint_frame adj i p _ (spacedPoint_frame l i p)))
        as [-> ->].
      done.
    + assert (out !! i = None) as ->; [| done].
      apply lookup_ge_None. apply lookup_ge_None in Hp. lia.
Qed.

(** X14. [main] never stops at the check of line 100: [readCSV] returns
    no empty slice without an error; and the three passes never panic. *)
Theorem main_never_no_data (lib : Library) (args : list string) :
  adjustedTimeline lib args ≠ inl NoDataPoints
  ∧ adjustedTimeline lib args ≠ inl RuntimePanic.
Proof.
  unfold adjustedTimeline. destruct args as [|input [|output rest]]; [done.. |].
  destruct (readCSV lib input) as [e | points] eqn:Hread; [done |].
  unfold readCSV in Hread.
  destruct (ReadAll lib input) as [err | rows]; [done |].
  destruct (length rows =? 0)%nat eqn:Hrows; [done |].
  apply Nat.eqb_neq in Hrows.
  destruct (readRows_inr _ _ _ _ _ Hread) as (new & -> & Hlen & _).
  simpl. assert ((length new =? 0)%nat = false) as ->
    by (apply Nat.eqb_neq; lia).
  destruct (declutter_result (SortSlice lib byYear new)) as (out & -> & _).
  done.
Qed.



(** ** The window of the chart *)

Lemma lower_of_two (a b : Q) :
  (if Qlt_bool a b then a else b) <= a ∧ (if Qlt_bool a b then a else b) <= b.
Proof.
  destruct (Qlt_bool a b) eqn:H.
  - apply Qlt_bool_iff in H. split; lra.
  - unfold Qlt_bool in H. apply negb_false_iff, Qle_bool_iff in H. split; lra.
Qed.

Lemma upper_of_two (a b : Q) :
  a <= (if Qlt_bool b a then a else b) ∧ b <= (if Qlt_bool b a then a else b).
Proof.
  destruct (Qlt_bool b a) eqn:H.
  - apply Qlt_bool_iff in H. split; lra.
  - unfold Qlt_bool in H. apply negb_false_iff, Qle_bool_iff in H. split; lra.
Qed.

(** The loop of line 248 only widens the extent, and widens it over every
    point. *)
Lemma extent_fold (l : list Point) (e : Extent) :
  extMinYear (fold_left extentStep l e) <= extMinYear e
  ∧ extMaxYear e <= extMaxYear (fold_left extentStep l e)
  ∧ extMinY (fold_left extentStep l e) <= extMinY e
  ∧ extMaxY e <= extMaxY (fold_left extentStep l e)
  ∧ ∀ i p, l !! i = Some p →
      extMinYear (fold_left extentStep l e) <= Year p
      ∧ Year p <= extMaxYear (fold_left extentStep l e)
      ∧ extMinY (fold_left extentStep l e) <= Value p
      ∧ Value p <= extMaxY (fold_left extentStep l e).
Proof.
  revert e. induction l as [|q l IH]; intros e; simpl.
  - split; [lra |]. split; [lra |]. split; [lra |]. split; [lra |].
    intros i p Hp. done.
  - destruct (IH (extentStep e q)) as (H1 & H2 & H3 & H4 & Hall).
    pose proof (lower_of_two (Year q) (extMinYear e)) as [L1 L2].
    pose proof (upper_of_two (Year q) (extMaxYear e)) as [U1 U2].
    pose proof (lower_of_two (Value q) (extMinY e)) as [L3 L4].
    pose proof (upper_of_two (Value q) (extMaxY e)) as [U3 U4].
    simpl in H1, H2, H3, H4.
    split; [lra |]. split; [lra |]. split; [lra |]. split; [lra |].
    intros i p Hp. destruct i as [|i]; simpl in Hp.
    + injection Hp as <-. repeat split; lra.
    + exact (Hall i p Hp).
Qed.

(** The extent is the start value or a coordinate of one of the points. *)
Lemma extent_fold_attained (l : list Point) (e : Extent) :
  (extMinYear (fold_left extentStep l e) = extMinYear e
   ∨ ∃ i p, l !! i = Some p ∧ extMinYear (fold_left extentStep l e) = Year p)
  ∧ (extMaxYear (fold_left extentStep l e) = extMaxYear e
     ∨ ∃ i p, l !! i = Some p ∧ extMaxYear (fold_left extentStep l e) = Year p)
  ∧ (extMinY (fold_left extentStep l e) = extMinY e
     ∨ ∃ i p, l !! i = Some p ∧ extMinY (fold_left extentStep l e) = Value p)
  ∧ (extMaxY (fold_left extentStep l e) = extMaxY e
     ∨ ∃ i p, l !! i = Some p ∧ extMaxY (fold_left extentStep l e) = Value p).
Proof.
  revert e. induction l as [|q l IH]; intros e; simpl.
  - repeat split; by left.
  - destruct (IH (extentStep e q)) as (H1 & H2 & H3 & H4).
    assert (∀ (f : Extent → Q) (g : Point → Q),
              (f (fold_left extentStep l (extentStep e q)) = f (extentStep e q)
               ∨ ∃ i p, l !! i = Some p
                        ∧ f (fold_left extentStep l (extentStep e q)) = g p) →
              (f (extentStep e q) = f e ∨ f (extentStep e q) = g q) →
              f (fold_left extentStep l (extentStep e q)) = f e
              ∨ ∃ i p, (q :: l) !! i = Some p
                       ∧ f (fold_left extentStep l (extentStep e q)) = g p)
      as Hcase.
    { intros f g [Hf | (i & p & Hp & Hf)] Hstep.
      - destruct Hstep as [Hs | Hs]; [left; congruence |].
        right. exists 0%nat, q. split; [done | congruence].
      - right. by exists (S i), p. }
    split; [| split; [| split]].
    + apply (Hcase extMinYear Year H1). simpl.
      destruct (Qlt_bool (Year q) (extMinYear e)); [by right | by left].
    + apply (Hcase extMaxYear Year H2). simpl.
      destruct (Qlt_bool (extMaxYear e) (Year q)); [by right | by left].
    + apply (Hcase extMinY Value H3). simpl.
      destruct (Qlt_bool (Value q) (extMinY e)); [by right | by left].
    + apply (Hcase extMaxY Value H4). simpl.
      destruct (Qlt_bool (extMaxY e) (Value q)); [by right | by left].
Qed.



Lemma floorQ_mono (x y : Q) : x <= y → floorQ x <= floorQ y.
Proof. intros H. unfold floorQ. rewrite <- Zle_Qle. by apply Qfloor_resp_le. Qed.

Lemma ceilQ_mono (x y : Q) : x <= y → ceilQ x <= ceilQ y.
Proof. intros H. unfold ceilQ. rewrite <- Zle_Qle. by apply Qceiling_resp_le. Qed.

Lemma floorQ_Qeq (x y : Q) : x == y → floorQ x = floorQ y.
Proof. intros H. unfold floorQ. by rewrite H. Qed.

Lemma ceilQ_Qeq (x y : Q) : x == y → ceilQ x = ceilQ y.
Proof. intros H. unfold ceilQ. by rewrite H. Qed.

(** The padding of lines 270-273, and the clamps of lines 297-302. *)
Lemma yPad_cases (a : Q) :
  (if Qlt_bool a 4 then 1 else 6 # 10 : Q) = 1
  ∨ (if Qlt_bool a 4 then 1 else 6 # 10 : Q) = 6 # 10.
Proof. destruct (Qlt_bool a 4); [by left | by right]. Qed.

Lemma clampLow (a : Q) :
  (if Qlt_bool (-10) a then -10 else a) <= -10
  ∧ (if Qlt_bool (-10) a then -10 else a) <= a.
Proof.
  destruct (Qlt_bool (-10) a) eqn:H.
  - apply Qlt_bool_iff in H. split; lra.
  - unfold Qlt_bool in H. apply negb_false_iff, Qle_bool_iff in H. split; lra.
Qed.

Lemma clampHigh (a : Q) :
  10 <= (if Qlt_bool a 10 then 10 else a)
  ∧ a <= (if Qlt_bool a 10 then 10 else a).
Proof.
  destruct (Qlt_bool a 10) eqn:H.
  - apply Qlt_bool_iff in H. split; lra.
  - unfold Qlt_bool in H. apply negb_false_iff, Qle_bool_iff in H. split; lra.
Qed.



Lemma extent_values_within (l : list Point) :
  (∀ i p, l !! i = Some p → -10 <= Value p <= 10) →
  -10 <= extMinY (extent l) ∧ extMaxY (extent l) <= 10.
Proof.
  intros Hbound. unfold extent.
  destruct (extent_fold_attained l {| extMinYear := maxFloat64;
                                      extMaxYear := - maxFloat64;
                                      extMinY := 0; extMaxY := 0 |})
    as (_ & _ & Hmin & Hmax).
  split.
  - destruct Hmin as [-> | (i & p & Hp & ->)]; [simpl; lra |].
    apply (Hbound i p Hp).
  - destruct Hmax as [-> | (i & p & Hp & ->)]; [simpl; lra |].
    apply (Hbound i p Hp).
Qed.

(** X17. Whatever the points, [Y.Min <= -11] and [11 <= Y.Max], so that the
    axis drawn along [y = 0] is inside the window; and for values within
    -10..10 the window is exactly -11..11, with either padding. *)
Theorem window_y_band (l : list Point) :
  YMin (window l) <= -11
  ∧ 11 <= YMax (window l)
  ∧ ((∀ i p, l !! i = Some p → -10 <= Value p <= 10) →
     YMin (window l) = -11 ∧ YMax (window l) = 11).
Proof.
  unfold window. simpl.
  pose proof (clampLow (extMinY (extent l))) as [Hlow Hlow'].
  pose proof (clampHigh (extMaxY (extent l))) as [Hhigh Hhigh'].
  set (minY := if Qlt_bool (-10) (extMinY (extent l)) then -10
               else extMinY (extent l)) in *.
  set (maxY := if Qlt_bool (extMaxY (extent l)) 10 then 10
               else extMaxY (extent l)) in *.
  pose proof (yPad_cases (extMaxY (extent l) - extMinY (extent l))) as Hpad.
  set (yPad := if Qlt_bool (extMaxY (extent l) - extMinY (extent l)) 4
               then 1 else 6 # 10) in *.
  assert (6 # 10 <= yPad ∧ yPad <= 1) as [Hp1 Hp2]
    by (destruct Hpad as [-> | ->]; split; lra).
  split; [| split].
  - change (-11) with (floorQ (-106 # 10)). apply floorQ_mono. lra.
  - change 11 with (ceilQ (106 # 10)). apply ceilQ_mono. lra.
  - intros Hbound. destruct (extent_values_within l Hbound) as [Hmin Hmax].
    assert (minY == -10) as Hmin'.
    { unfold minY in *. destruct (Qlt_bool (-10) (extMinY (extent l)));
        [reflexivity | lra]. }
    assert (maxY == 10) as Hmax'.
    { unfold maxY in *. destruct (Qlt_bool (extMaxY (extent l)) 10);
        [reflexivity | lra]. }
    destruct Hpad as [-> | ->].
    + rewrite (floorQ_Qeq (minY - 1) (-11)), (ceilQ_Qeq (maxY + 1) 11) by lra.
      done.
    + rewrite (floorQ_Qeq (minY - (6 # 10)) (-106 # 10)),
              (ceilQ_Qeq (maxY + (6 # 10)) (106 # 10)) by lra.
      done.
Qed.

(** On the scenario after the first pass, and on two points whose values
    3 and -4 are within -10..10. *)
Lemma window_y_band_witness :
  YMin (window scenarioSpaced) <= -11 ∧ 11 <= YMax (window scenarioSpaced)
  ∧ YMin (window [pt 1990 3 "a"; pt 1991 (-4) "b"]) = -11.
Proof.
  destruct (window_y_band scenarioSpaced) as (Hlow & Hhigh & _).
  split; [exact Hlow |]. split; [exact Hhigh |].
  destruct (window_y_band [pt 1990 3 "a"; pt 1991 (-4) "b"]) as (_ & _ & Hband).
  apply Hband. intros i p Hp.
  destruct i as [|[|i]]; try discriminate Hp; injection Hp as <-;
    split; discriminate.
Defined.

(** X18. For ascending years within the range of [float64], [X.Min] is the
    floor of the first year and [X.Max] the ceiling of the last one. *)
Theorem window_x_range (l : list Point) :
  l ≠ [] →
  ascending l = true →
  (∀ i p, l !! i = Some p → - maxFloat64 <= Year p <= maxFloat64) →
  XMin (window l) = floorQ (yearAt l 0)
  ∧ XMax (window l) = ceilQ (yearAt l (length l - 1)).
Proof.
  intros Hne Hasc Hfinite.
  assert (0 < length l)%nat as Hlen by (destruct l; [done | simpl; lia]).
  destruct (lookup_lt_is_Some_2 l 0) as [first Hfirst]; [lia |].
  destruct (lookup_lt_is_Some_2 l (length l - 1)) as [last Hlast]; [lia |].
  unfold window. simpl. unfold extent.
  set (start := {| extMinYear := maxFloat64; extMaxYear := - maxFloat64;
                   extMinY := 0; extMaxY := 0 |}).
  destruct (extent_fold l start) as (_ & _ & _ & _ & Hall).
  destruct (extent_fold_attained l start) as (Hmin & Hmax & _).
  destruct (Hall 0%nat first Hfirst) as (Hlo & _).
  destruct (Hall _ last Hlast) as (_ & Hhi & _).
  rewrite (yearAt_Some _ _ _ Hfirst), (yearAt_Some _ _ _ Hlast).
  split.
  - apply floorQ_Qeq. apply Qle_antisym; [done |].
    destruct Hmin as [-> | (i & p & Hp & ->)]; simpl.
    + apply (Hfinite 0%nat first Hfirst).
    + rewrite <- (yearAt_Some _ _ _ Hfirst), <- (yearAt_Some _ _ _ Hp).
      apply ascending_le; [done |]. apply lookup_lt_Some in Hp. lia.
  - apply ceilQ_Qeq. apply Qle_antisym; [| done].
    destruct Hmax as [-> | (i & p & Hp & ->)]; simpl.
    + apply (Hfinite _ last Hlast).
    + rewrite <- (yearAt_Some _ _ _ Hlast), <- (yearAt_Some _ _ _ Hp).
      apply ascending_le; [done |]. apply lookup_lt_Some in Hp. lia.
Qed.

(** On the scenario after the first pass: 1989.9 to 1995. *)
Lemma window_x_range_witness :
  XMin (window scenarioSpaced) = floorQ (19899 # 10)
  ∧ XMax (window scenarioSpaced) = ceilQ 1995.
Proof.
  apply (window_x_range scenarioSpaced ltac:(discriminate) eq_refl).
  intros i p Hp.
  destruct i as [|[|[|i]]]; try discriminate Hp; injection Hp as <-;
    split; vm_compute; discriminate.
Defined.

(** X19. Two labels have the same offset exactly when their indexes are
    equal modulo 4, and no label keeps a zero offset: neighbours in the
    sequence, and any four in a row, have different offsets. *)
Theorem labelOffset_period (i j : nat) :
  (labelOffset i = labelOffset j ↔ (i mod 4 = j mod 4)%nat)
  ∧ labelOffset i ≠ (0, 0).
Proof.
  unfold labelOffset.
  pose proof (Nat.mod_upper_bound i 4 ltac:(lia)) as Hi.
  pose proof (Nat.mod_upper_bound j 4 ltac:(lia)) as Hj.
  destruct (i mod 4)%nat as [|[|[|[|a]]]]; try lia;
    (split; [| discriminate]);
    destruct (j mod 4)%nat as [|[|[|[|b]]]]; try lia;
    split; intros H; try reflexivity; try discriminate H.
Qed.


